(** * ExpenseTracker: a shallow embedding of [expense2.cpp]

    The tracker keeps four views of one data set: the log [expenses], the
    per-category buckets [categoryMap], the running sums [categoryTotals]
    and the amount-ordered queue [maxHeap].  Each member function of the
    C++ class becomes a function on the record [ExpenseTracker]; what a
    function writes to [std::cout] becomes a list of [line]s.

    - [double] is IEEE binary64, here the primitive [float] with its own
      addition and comparison.
    - [std::string] is [string]; [operator<] on strings is the
      lexicographic order on unsigned bytes, [String.ltb].
    - [std::unordered_map] is a [gmap]; [std::vector] is a [list];
      [size_t] is [N] (the code never does arithmetic on an index besides
      the loop counter, which stays below its bound). *)

From Stdlib Require Import PrimFloat FloatAxioms FloatOps SpecFloat.
From Stdlib Require Import Sorting.Sorted.
From stdpp Require Import gmap strings list fin_maps sorting.

Local Open Scope string_scope.
Local Open Scope nat_scope.
Local Open Scope list_scope.

(** ** The record type and its two comparators *)

Record Expense := mkExpense {
  amount : float;
  category : string;
  date : string;
  deleted : bool
}.

(** [Expense::operator<]: by date only. *)
Definition Expense_lt (a b : Expense) : bool :=
  String.ltb (date a) (date b).

(** [CompareByAmount::operator()]. *)
Definition CompareByAmount (a b : Expense) : bool :=
  PrimFloat.ltb (amount a) (amount b).

(** [expenses[index].deleted = true] on one element. *)
Definition mark_deleted (e : Expense) : Expense :=
  {| amount := amount e; category := category e; date := date e;
     deleted := true |}.

(** ** [std::priority_queue<Expense, vector<Expense>, CompareByAmount>]

    The queue is kept as the list of its elements in the order in which
    successive [top()]/[pop()] calls deliver them: [top] is the head, [pop]
    drops it, [push] places the new element in front of the first element
    that compares less.  The standard leaves the order among elements of
    equal priority open; this model delivers them first-pushed first, and
    an implementation (a binary heap) may deliver them otherwise.  What is
    stated of the queue is therefore stated up to rearrangement, or for
    every delivery order that meets the contract. *)

Fixpoint pq_push (x : Expense) (h : list Expense) : list Expense :=
  match h with
  | [] => [x]
  | y :: h' => if CompareByAmount y x then x :: y :: h' else y :: pq_push x h'
  end.

(** ** The tracker state *)

Record ExpenseTracker := mkTracker {
  expenses : list Expense;
  categoryMap : gmap string (list Expense);
  categoryTotals : gmap string float;
  maxHeap : list Expense
}.

(** A default-constructed tracker. *)
Definition new_tracker : ExpenseTracker :=
  {| expenses := []; categoryMap := ∅; categoryTotals := ∅; maxHeap := [] |}.

(** ** Output *)

(** One line written to [std::cout].  Numbers are kept as values, not as
    formatted text. *)
Inductive line :=
  | Msg (s : string)
  | TopHeader (n : N)                                  (* "Top n Expenses:" *)
  | Row_acd (a : float) (c d : string)                 (* "$a | c | d" *)
  | Row_ad (a : float) (d : string)                    (* "$a | d" *)
  | Row_ac (a : float) (c : string)                    (* "$a | c" *)
  | Row_total (c : string) (t : float).                (* "c: $t" *)

Definition row_acd (e : Expense) : line := Row_acd (amount e) (category e) (date e).
Definition row_ad (e : Expense) : line := Row_ad (amount e) (date e).
Definition row_ac (e : Expense) : line := Row_ac (amount e) (category e).

(** The test [!exp.deleted] used by every listing. *)
Definition visible (e : Expense) : bool := negb (deleted e).

(** The data lines of an output, without the messages and headers. *)
Definition is_row (l : line) : bool :=
  match l with
  | Msg _ | TopHeader _ => false
  | _ => true
  end.

Definition data_rows (out : list line) : list line := filter (λ l, is_row l = true) out.

(** ** Member functions *)

(** [addExpense]: [operator[]] on either map creates a value-initialised
    entry (an empty vector, [0.0]) when the key is new. *)
Definition addExpense (amt : float) (cat dt : string) (t : ExpenseTracker)
  : ExpenseTracker :=
  let exp := {| amount := amt; category := cat; date := dt; deleted := false |} in
  {| expenses := expenses t ++ [exp];
     categoryMap :=
       <[cat := default [] (categoryMap t !! cat) ++ [exp]]> (categoryMap t);
     categoryTotals :=
       <[cat := PrimFloat.add (default 0%float (categoryTotals t !! cat)) amt]>
         (categoryTotals t);
     maxHeap := pq_push exp (maxHeap t) |}.

(** [viewExpenses] (a [const] member). *)
Definition viewExpenses (t : ExpenseTracker) : list line :=
  Msg "Amount | Category | Date"
    :: map row_acd (filter (λ e, visible e = true) (expenses t)).

(** [filterByCategory] (a [const] member). *)
Definition filterByCategory (cat : string) (t : ExpenseTracker) : list line :=
  Msg ("Expenses for category: " +:+ cat) :: Msg "Amount | Date" ::
  match categoryMap t !! cat with
  | Some bucket => map row_ad (filter (λ e, visible e = true) bucket)
  | None => [Msg "No expenses found for this category."]
  end.

(** [viewCategoryTotals] (a [const] member).  The iteration order of an
    [unordered_map] is unspecified; [map_to_list] fixes one. *)
Definition viewCategoryTotals (t : ExpenseTracker) : list line :=
  Msg "Total Expenses by Category:"
    :: map (λ kv, Row_total kv.1 kv.2) (map_to_list (categoryTotals t)).

(** [deleteExpense]. *)
Definition deleteExpense (index : N) (t : ExpenseTracker)
  : list line * ExpenseTracker :=
  if (index <? N.of_nat (length (expenses t)))%N then
    ([Msg "Expense deleted lazily."],
     {| expenses := alter mark_deleted (N.to_nat index) (expenses t);
        categoryMap := categoryMap t;
        categoryTotals := categoryTotals t;
        maxHeap := maxHeap t |})
  else
    ([Msg "Invalid index."], t).

(** The loop of [viewTopExpenses] over the local copy [tempHeap]:
    [for (i = 0; i < N && !tempHeap.empty(); ++i)], with [top()] the head
    and [pop()] the tail.  The result is what was printed and what is left
    of [tempHeap] when the loop ends. *)
Fixpoint top_loop (i n : N) (tempHeap : list Expense)
  : list line * list Expense :=
  match tempHeap with
  | [] => ([], [])
  | top :: rest =>
      if (i <? n)%N then
        let r := top_loop (i + 1)%N n rest in
        ((if visible top then [row_acd top] else []) ++ r.1, r.2)
      else ([], tempHeap)
  end.

(** [viewTopExpenses]: a non-[const] member, so the tracker it leaves
    behind is part of the result.  [tempHeap] is copy-constructed from
    [maxHeap] and goes out of scope at the end. *)
Definition viewTopExpenses (n : N) (t : ExpenseTracker)
  : list line * ExpenseTracker :=
  let tempHeap := maxHeap t in
  (TopHeader n :: Msg "Amount | Category | Date" :: (top_loop 0%N n tempHeap).1,
   {| expenses := expenses t;
      categoryMap := categoryMap t;
      categoryTotals := categoryTotals t;
      maxHeap := maxHeap t |}).

(** ** [std::equal_range] with [Expense::operator<]

    The standard defines [lower_bound] as the furthermost position [i] such
    that [elem < value] holds for every element before [i], [upper_bound]
    likewise with [!(value < elem)], and [equal_range] as the pair of the
    two: each is the length of the leading run that passes its test. *)

Fixpoint partition_point (p : Expense → bool) (l : list Expense) : nat :=
  match l with
  | [] => 0
  | e :: l' => if p e then S (partition_point p l') else 0
  end.

Definition lower_bound (l : list Expense) (v : Expense) : nat :=
  partition_point (λ e, Expense_lt e v) l.

Definition upper_bound (l : list Expense) (v : Expense) : nat :=
  partition_point (λ e, negb (Expense_lt v e)) l.

(** The pair of iterators, as positions. *)
Definition equal_range (l : list Expense) (v : Expense) : nat * nat :=
  (lower_bound l v, upper_bound l v).

(** The elements of [[first, second)]. *)
Definition slice (l : list Expense) (r : nat * nat) : list Expense :=
  take (r.2 - r.1) (drop r.1 l).

(** The value [filterByDate] searches for: [Expense{0, "", targetDate}]. *)
Definition probe (targetDate : string) : Expense :=
  {| amount := 0%float; category := ""; date := targetDate; deleted := false |}.

(** ** The operations that depend on [std::sort] *)

(** The menu of [main]: one constructor per call the loop can make. *)
Inductive call :=
  | AddExpense (amt : float) (cat dt : string)
  | ViewExpenses
  | FilterByCategory (cat : string)
  | ViewCategoryTotals
  | FilterByDate (dt : string)
  | DeleteExpense (index : N)
  | ViewTopExpenses (n : N).

Section WithSort.

(** [std::sort(first, last)]: the standard fixes the result only up to
    the order of equivalent elements, so the sort is a parameter and its
    contract two properties: the result is a rearrangement of the input,
    and [*(i + n) < *i] is false for every position [i] and every [n]. *)
Variable std_sort : list Expense → list Expense.

Definition sort_permutes : Prop := ∀ l, std_sort l ≡ₚ l.
Definition sort_sorts : Prop :=
  ∀ l, StronglySorted (λ a b, Expense_lt b a = false) (std_sort l).

(** [filterByDate]. *)
Definition filterByDate (targetDate : string) (t : ExpenseTracker)
  : list line * ExpenseTracker :=
  let sorted := std_sort (expenses t) in
  let t' := {| expenses := sorted;
               categoryMap := categoryMap t;
               categoryTotals := categoryTotals t;
               maxHeap := maxHeap t |} in
  let range := equal_range sorted (probe targetDate) in
  if (range.1 =? range.2)%nat then
    ([Msg ("No expenses found for date: " +:+ targetDate)], t')
  else
    (Msg ("Expenses for " +:+ targetDate +:+ ":") :: Msg "Amount | Category"
       :: map row_ac (filter (λ e, visible e = true) (slice sorted range)),
     t').

(** One iteration of the menu loop. *)
Definition step (t : ExpenseTracker) (c : call) : list line * ExpenseTracker :=
  match c with
  | AddExpense amt cat dt => ([], addExpense amt cat dt t)
  | ViewExpenses => (viewExpenses t, t)
  | FilterByCategory cat => (filterByCategory cat t, t)
  | ViewCategoryTotals => (viewCategoryTotals t, t)
  | FilterByDate dt => filterByDate dt t
  | DeleteExpense index => deleteExpense index t
  | ViewTopExpenses n => viewTopExpenses n t
  end.

(** The tracker after a sequence of calls. *)
Definition run (cs : list call) (t : ExpenseTracker) : ExpenseTracker :=
  fold_left (λ s c, (step s c).2) cs t.

End WithSort.

(** ** Specification-side definitions *)

(** The sum a running total holds: the amounts added one after the other
    to the value-initialised [0.0]. *)
Definition float_sum (l : list float) : float :=
  fold_left PrimFloat.add l 0%float.

(** The amounts of the [addExpense] calls made with category [K], in call
    order. *)
Definition added_amount (K : string) (c : call) : list float :=
  match c with
  | AddExpense amt cat _ => if decide (cat = K) then [amt] else []
  | _ => []
  end.

Definition amounts_added (K : string) (cs : list call) : list float :=
  concat (map (added_amount K) cs).

(** The total a bucket accounts for. *)
Definition bucket_sum (b : list Expense) : float := float_sum (map amount b).

Definition totals_match (t : ExpenseTracker) : Prop :=
  categoryTotals t = bucket_sum <$> categoryMap t.

(** [a] is dated no later than [b]. *)
Definition date_le (a b : Expense) : Prop := String.le (date a) (date b).

#[local] Instance date_le_dec : RelDecision date_le.
Proof. intros a b. unfold date_le. apply _. Defined.

Definition date_sort (l : list Expense) : list Expense := merge_sort date_le l.

(** The value [addExpense] stored for a record: its fields with the flag
    as initialised. *)
Definition as_inserted (e : Expense) : Expense :=
  {| amount := amount e; category := category e; date := date e;
     deleted := false |}.

(** What holds of the copies in every reachable state: no copy carries
    the flag, and every log entry has its copy in its category's bucket and
    in the queue. *)
Record copies_ok (t : ExpenseTracker) : Prop := {
  bucket_clean : ∀ K b x, categoryMap t !! K = Some b → x ∈ b → deleted x = false;
  heap_clean : ∀ x, x ∈ maxHeap t → deleted x = false;
  log_copied : ∀ e, e ∈ expenses t →
    (∃ b, categoryMap t !! category e = Some b ∧ as_inserted e ∈ b)
    ∧ as_inserted e ∈ maxHeap t
}.

(** The record an [addExpense] call appends. *)
Definition inserted_by (c : call) : list Expense :=
  match c with
  | AddExpense amt cat dt =>
      [{| amount := amt; category := cat; date := dt; deleted := false |}]
  | _ => []
  end.

(** All records ever inserted, in call order. *)
Definition inserted (cs : list call) : list Expense :=
  concat (map inserted_by cs).

(** The positions hit by a [deleteExpense] call that was in range when it
    was made; [n] is the number of records in the log before [cs]. *)
Fixpoint tombstones (n : nat) (cs : list call) : gset nat :=
  match cs with
  | [] => ∅
  | AddExpense _ _ _ :: cs' => tombstones (S n) cs'
  | DeleteExpense index :: cs' =>
      (if decide (index < N.of_nat n)%N then {[N.to_nat index]} else ∅)
        ∪ tombstones n cs'
  | _ :: cs' => tombstones n cs'
  end.

(** [l], whose first element has position [i], with the flag set at the
    positions in [D]. *)
Fixpoint mark_from (D : gset nat) (i : nat) (l : list Expense) : list Expense :=
  match l with
  | [] => []
  | e :: l' => (if decide (i ∈ D) then mark_deleted e else e) :: mark_from D (S i) l'
  end.

(** The elements of [l] at positions outside [D], in order. *)
Fixpoint survivors (D : gset nat) (i : nat) (l : list Expense) : list Expense :=
  match l with
  | [] => []
  | e :: l' => if decide (i ∈ D) then survivors D (S i) l' else e :: survivors D (S i) l'
  end.

Definition is_filterByDate (c : call) : bool :=
  match c with FilterByDate _ => true | _ => false end.

(** No call of the sequence is [filterByDate]. *)
Definition no_filterByDate (cs : list call) : Prop :=
  forallb (λ c, negb (is_filterByDate c)) cs = true.

(** Three insertions, two categories, two dates. *)
Definition example_calls : list call :=
  [AddExpense 12.5%float "food" "2024-01-05";
   AddExpense 40%float "food" "2024-01-06";
   AddExpense 100%float "travel" "2024-01-05"].

Definition example_tracker : ExpenseTracker :=
  run date_sort example_calls new_tracker.

(** The records inserted with category [K], in call order. *)
Definition inserted_in (K : string) (cs : list call) : list Expense :=
  filter (λ e, category e = K) (inserted cs).

(** [a] does not compare less than [b] under [CompareByAmount]. *)
Definition amount_ge (a b : Expense) : Prop := CompareByAmount a b = false.

(** No inserted amount is a NaN.  Then [<] on the amounts is a strict
    weak ordering, which [std::priority_queue] requires of its comparator. *)
Definition no_nan_amounts (cs : list call) : Prop :=
  forallb (λ e, negb (PrimFloat.is_nan (amount e))) (inserted cs) = true.

(** The amount of [b] is at most that of [a]. *)
Definition amount_le (b a : Expense) : Prop :=
  PrimFloat.leb (amount b) (amount a) = true.

(** ** Basic facts about [run] and the single operations *)

Section RunFacts.
Variable std_sort : list Expense → list Expense.

Lemma run_nil t : run std_sort [] t = t.
Proof. reflexivity. Qed.

Lemma run_cons c cs t :
  run std_sort (c :: cs) t = run std_sort cs (step std_sort t c).2.
Proof. reflexivity. Qed.

Lemma run_snoc cs c t :
  run std_sort (cs ++ [c]) t = (step std_sort (run std_sort cs t) c).2.
Proof. unfold run. by rewrite fold_left_app. Qed.

Lemma viewTopExpenses_state n t : (viewTopExpenses n t).2 = t.
Proof. by destruct t. Qed.

Lemma deleteExpense_maps index t :
  categoryMap (deleteExpense index t).2 = categoryMap t
  ∧ categoryTotals (deleteExpense index t).2 = categoryTotals t
  ∧ maxHeap (deleteExpense index t).2 = maxHeap t.
Proof. unfold deleteExpense. by case_match. Qed.

Lemma filterByDate_state dt t :
  (filterByDate std_sort dt t).2
  = {| expenses := std_sort (expenses t); categoryMap := categoryMap t;
       categoryTotals := categoryTotals t; maxHeap := maxHeap t |}.
Proof. unfold filterByDate. by case_match. Qed.

(** Only [addExpense] touches the two category maps and the queue. *)
Lemma step_maps t c :
  match c with
  | AddExpense _ _ _ => True
  | _ => categoryMap (step std_sort t c).2 = categoryMap t
         ∧ categoryTotals (step std_sort t c).2 = categoryTotals t
         ∧ maxHeap (step std_sort t c).2 = maxHeap t
  end.
Proof.
  destruct c; simpl; try done.
  - by rewrite filterByDate_state.
  - apply deleteExpense_maps.
Qed.

End RunFacts.

Lemma float_sum_snoc l a : float_sum (l ++ [a]) = PrimFloat.add (float_sum l) a.
Proof. unfold float_sum. by rewrite fold_left_app. Qed.

Lemma amounts_added_snoc K cs c :
  amounts_added K (cs ++ [c]) = amounts_added K cs ++ added_amount K c.
Proof.
  unfold amounts_added. rewrite map_app, concat_app. simpl.
  by rewrite app_nil_r.
Qed.

Lemma mark_deleted_idemp e : mark_deleted (mark_deleted e) = mark_deleted e.
Proof. reflexivity. Qed.

(** ** Category totals *)

(** The state of the total for [K] after any sequence of calls. *)
Lemma categoryTotals_run std_sort cs K :
  categoryTotals (run std_sort cs new_tracker) !! K
  = match amounts_added K cs with
    | [] => None
    | _ => Some (float_sum (amounts_added K cs))
    end.
Proof.
  induction cs as [|c cs IH] using rev_ind; [done|].
  rewrite run_snoc, amounts_added_snoc.
  pose proof (step_maps std_sort (run std_sort cs new_tracker) c) as Hc.
  destruct c as [amt cat dt| | | | | |];
    try (destruct Hc as (_ & -> & _); simpl; by rewrite app_nil_r).
  simpl. destruct (decide (cat = K)) as [->|Hne].
  - rewrite lookup_insert_eq, IH.
    destruct (amounts_added K cs) as [|a l] eqn:E; simpl; [done|].
    destruct (l ++ [amt]) eqn:E2; [by destruct l|].
    rewrite <- E2. f_equal.
    change (a :: l ++ [amt]) with ((a :: l) ++ [amt]).
    by rewrite float_sum_snoc.
  - rewrite lookup_insert_ne by done. by rewrite IH, app_nil_r.
Qed.

(** C1.  After any sequence of calls (of [addExpense], [deleteExpense] and
    the other menu entries alike), the total stored for a category [K] is
    the sum, taken in call order from [0.0], of the amounts of all
    [addExpense] calls made with [K]; an entry for [K] exists exactly when
    there was such a call.  No [deleteExpense] lowers it. *)
Theorem category_total_is_sum_of_adds std_sort (cs : list call) (K : string) :
  let t := run std_sort cs new_tracker in
  default 0%float (categoryTotals t !! K) = float_sum (amounts_added K cs)
  ∧ (is_Some (categoryTotals t !! K) ↔ amounts_added K cs ≠ [])
  ∧ ∀ index, categoryTotals (deleteExpense index t).2 = categoryTotals t.
Proof.
  simpl. rewrite categoryTotals_run.
  destruct (amounts_added K cs) eqn:E; simpl.
  - split; [done|]. split; [|intros; apply deleteExpense_maps].
    split; [by intros [? ?]|done].
  - split; [done|]. split; [|intros; apply deleteExpense_maps].
    split; [done|eauto].
Qed.

(** ** Buckets and totals move together *)

Lemma totals_match_new : totals_match new_tracker.
Proof. unfold totals_match. simpl. by rewrite fmap_empty. Qed.

Lemma totals_match_add amt cat dt t :
  totals_match t → totals_match (addExpense amt cat dt t).
Proof.
  unfold totals_match. intros Ht. simpl. rewrite Ht, fmap_insert. f_equal.
  rewrite lookup_fmap. unfold bucket_sum.
  destruct (categoryMap t !! cat) as [b|]; simpl.
  - rewrite map_app. simpl. by rewrite float_sum_snoc.
  - reflexivity.
Qed.

Lemma totals_match_step std_sort t c :
  totals_match t → totals_match (step std_sort t c).2.
Proof.
  intros Ht. pose proof (step_maps std_sort t c) as Hc.
  destruct c; try (destruct Hc as (Hm & Hs & _); unfold totals_match;
                   by rewrite Hm, Hs).
  by apply totals_match_add.
Qed.

Lemma totals_match_run std_sort cs t :
  totals_match t → totals_match (run std_sort cs t).
Proof.
  revert t. induction cs as [|c cs IH]; intros t Ht; [done|].
  rewrite run_cons. by apply IH, totals_match_step.
Qed.

(** C10.  In every state reached from a fresh tracker, [categoryMap] and
    [categoryTotals] have the same keys, and the total of a category is the
    sum of the amounts of all entries of its bucket, deleted or not. *)
Theorem totals_agree_with_buckets std_sort (cs : list call) :
  let t := run std_sort cs new_tracker in
  dom (categoryMap t) = dom (categoryTotals t)
  ∧ ∀ K bucket, categoryMap t !! K = Some bucket →
                categoryTotals t !! K = Some (float_sum (map amount bucket)).
Proof.
  simpl. pose proof (totals_match_run std_sort cs _ totals_match_new) as Ht.
  unfold totals_match in Ht. rewrite Ht. split.
  - by rewrite dom_fmap_L.
  - intros K b Hb. by rewrite lookup_fmap, Hb.
Qed.

(** ** [deleteExpense] *)

Lemma deleteExpense_valid index t :
  (index < N.of_nat (length (expenses t)))%N →
  deleteExpense index t
  = ([Msg "Expense deleted lazily."],
     {| expenses := alter mark_deleted (N.to_nat index) (expenses t);
        categoryMap := categoryMap t; categoryTotals := categoryTotals t;
        maxHeap := maxHeap t |}).
Proof.
  intros H. unfold deleteExpense.
  by destruct (N.ltb_spec index (N.of_nat (length (expenses t)))); [|lia].
Qed.

Lemma deleteExpense_invalid index t :
  ¬ (index < N.of_nat (length (expenses t)))%N →
  deleteExpense index t = ([Msg "Invalid index."], t).
Proof.
  intros H. unfold deleteExpense.
  by destruct (N.ltb_spec index (N.of_nat (length (expenses t)))).
Qed.

(** C4.  [deleteExpense index] reports success exactly when
    [index < expenses.size()]; it then sets the flag of entry [index] and
    of no other entry.  For any other index it prints "Invalid index." and
    the tracker is unchanged. *)
Theorem deleteExpense_bounds (index : N) (t : ExpenseTracker) :
  let r := deleteExpense index t in
  let i := N.to_nat index in
  (r.1 = [Msg "Expense deleted lazily."]
     ↔ (index < N.of_nat (length (expenses t)))%N)
  ∧ ((index < N.of_nat (length (expenses t)))%N →
       (∃ e, expenses t !! i = Some e
             ∧ expenses r.2 !! i = Some (mark_deleted e)
             ∧ deleted (mark_deleted e) = true)
       ∧ ∀ j, j ≠ i → expenses r.2 !! j = expenses t !! j)
  ∧ (¬ (index < N.of_nat (length (expenses t)))%N →
       r = ([Msg "Invalid index."], t)).
Proof.
  simpl. split; [|split].
  - split.
    + intros H. destruct (decide (index < N.of_nat (length (expenses t)))%N)
        as [|Hn]; [done|].
      by rewrite (deleteExpense_invalid _ _ Hn) in H.
    + intros H. by rewrite (deleteExpense_valid _ _ H).
  - intros H. rewrite (deleteExpense_valid _ _ H). simpl. split.
    + destruct (lookup_lt_is_Some_2 (expenses t) (N.to_nat index)) as [e He];
        [lia|].
      exists e. by rewrite list_lookup_alter_eq, He.
    + intros j Hj. by rewrite list_lookup_alter_ne.
  - apply deleteExpense_invalid.
Qed.

(** C8.  Calling [deleteExpense index] a second time changes nothing: the
    tracker after two calls is the tracker after one.  (In this program
    the second call also prints the same message as the first.) *)
Theorem deleteExpense_idempotent (index : N) (t : ExpenseTracker) :
  let once := deleteExpense index t in
  let twice := deleteExpense index once.2 in
  twice.2 = once.2 ∧ twice.1 = once.1.
Proof.
  simpl. destruct (decide (index < N.of_nat (length (expenses t)))%N) as [H|H].
  - rewrite (deleteExpense_valid _ _ H). simpl.
    rewrite deleteExpense_valid; [|simpl; by rewrite length_alter].
    simpl. split; [|done]. f_equal.
    rewrite list_alter_alter_eq. by apply list_alter_ext.
  - rewrite (deleteExpense_invalid _ _ H). simpl.
    by rewrite (deleteExpense_invalid _ _ H).
Qed.

(** ** [viewTopExpenses] *)

Lemma top_loop_rest i n h : (top_loop i n h).2 = drop (N.to_nat (n - i)) h.
Proof.
  revert i. induction h as [|e h IH]; intros i; simpl.
  { by rewrite drop_nil. }
  destruct (N.ltb_spec i n) as [Hlt|Hge]; simpl.
  - rewrite IH.
    by replace (N.to_nat (n - i)) with (S (N.to_nat (n - (i + 1)))) by lia.
  - by replace (N.to_nat (n - i)) with 0 by lia.
Qed.

(** C9.  [viewTopExpenses] pops from its local copy of the queue only:
    the copy loses its first [n] entries, while the tracker after the call
    is the tracker before it, all four members included; a second call
    therefore prints the same lines. *)
Theorem viewTopExpenses_leaves_tracker (n : N) (t : ExpenseTracker) :
  (viewTopExpenses n t).2 = t
  ∧ (top_loop 0 n (maxHeap t)).2 = drop (N.to_nat n) (maxHeap t)
  ∧ viewTopExpenses n (viewTopExpenses n t).2 = viewTopExpenses n t.
Proof.
  split; [by destruct t|]. split; [|by destruct t].
  by rewrite top_loop_rest, N.sub_0_r.
Qed.

(** ** The order on dates *)

Lemma ltb_false_le (s1 s2 : string) : String.ltb s2 s1 = false ↔ String.le s1 s2.
Proof.
  unfold String.le, String.ltb, String.leb. rewrite (String.compare_antisym s2 s1).
  by destruct (String.compare s1 s2); simpl; split.
Qed.

Lemma ltb_true_not_le (s1 s2 : string) : String.ltb s1 s2 = true ↔ ¬ String.le s2 s1.
Proof.
  rewrite <- ltb_false_le. by destruct (String.ltb s1 s2); split.
Qed.

Lemma Expense_lt_false a b : Expense_lt b a = false ↔ date_le a b.
Proof. apply ltb_false_le. Qed.

Lemma Expense_lt_true a b : Expense_lt a b = true ↔ ¬ date_le b a.
Proof. apply ltb_true_not_le. Qed.

#[local] Instance date_le_trans : Transitive date_le.
Proof. intros a b c. unfold date_le. apply transitivity. Qed.

#[local] Instance date_le_total : Total date_le.
Proof. intros a b. unfold date_le. apply total, _. Qed.

Lemma StronglySorted_mono {A} (R1 R2 : relation A) (l : list A) :
  (∀ a b, R1 a b → R2 a b) → StronglySorted R1 l → StronglySorted R2 l.
Proof.
  intros HR. induction 1 as [|a l Hl IH Ha]; constructor; [done|].
  eapply Forall_impl; [exact Ha|]. intros b. apply HR.
Qed.

(** ** A sort that meets the contract

    [date_sort] is one implementation of the contract assumed of
    [std::sort]; the statements below that take the contract as a
    hypothesis can be run with it. *)

Lemma date_sort_permutes : sort_permutes date_sort.
Proof. intros l. apply merge_sort_Permutation. Qed.

Lemma date_sort_sorts : sort_sorts date_sort.
Proof.
  intros l. eapply StronglySorted_mono; [|apply (StronglySorted_merge_sort date_le)].
  intros a b. apply Expense_lt_false.
Qed.

(** ** The copies held by the bucket and the queue *)

Lemma pq_push_Permutation x h : pq_push x h ≡ₚ x :: h.
Proof.
  induction h as [|y h IH]; simpl; [done|].
  destruct (CompareByAmount y x); [done|].
  rewrite IH. apply perm_swap.
Qed.

Lemma elem_of_pq_push x y h : x ∈ pq_push y h ↔ x = y ∨ x ∈ h.
Proof. by rewrite pq_push_Permutation, elem_of_cons. Qed.

Lemma copies_ok_new : copies_ok new_tracker.
Proof.
  split; simpl.
  - intros K b x Hb. by rewrite lookup_empty in Hb.
  - intros x Hx. by apply elem_of_nil in Hx.
  - intros e He. by apply elem_of_nil in He.
Qed.

Lemma copies_ok_add amt cat dt t :
  copies_ok t → copies_ok (addExpense amt cat dt t).
Proof.
  intros [Hb Hh Hl]. split; simpl.
  - intros K b x HK Hx. destruct (decide (cat = K)) as [->|Hne].
    + rewrite lookup_insert_eq in HK. injection HK as <-.
      apply elem_of_app in Hx as [Hx|Hx].
      * destruct (categoryMap t !! K) as [b0|] eqn:E; simpl in Hx.
        -- by eapply Hb.
        -- by apply elem_of_nil in Hx.
      * by apply list_elem_of_singleton in Hx as ->.
    + rewrite lookup_insert_ne in HK by done. by eapply Hb.
  - intros x [->|Hx]%elem_of_pq_push; [done|]. by apply Hh.
  - intros e [He| ->%list_elem_of_singleton]%elem_of_app.
    + destruct (Hl e He) as [(b & Hbk & Hin) Hq]. split.
      * destruct (decide (cat = category e)) as [->|Hne].
        -- eexists. rewrite lookup_insert_eq. split; [done|].
           rewrite Hbk. simpl. apply elem_of_app. by left.
        -- exists b. by rewrite lookup_insert_ne.
      * apply elem_of_pq_push. by right.
    + simpl. split.
      * eexists. rewrite lookup_insert_eq. split; [done|].
        apply elem_of_app. right. by apply list_elem_of_singleton.
      * apply elem_of_pq_push. by left.
Qed.

Lemma elem_of_alter_mark_deleted e i (l : list Expense) :
  e ∈ alter mark_deleted i l → e ∈ l ∨ ∃ e0, e0 ∈ l ∧ e = mark_deleted e0.
Proof.
  intros (j & Hj)%list_elem_of_lookup_1.
  destruct (decide (i = j)) as [->|Hne].
  - rewrite list_lookup_alter_eq in Hj.
    destruct (l !! j) as [e0|] eqn:E; simplify_eq/=.
    right. exists e0. split; [|done]. by eapply list_elem_of_lookup_2.
  - rewrite list_lookup_alter_ne in Hj by done.
    left. by eapply list_elem_of_lookup_2.
Qed.

Lemma copies_ok_delete index t :
  copies_ok t → copies_ok (deleteExpense index t).2.
Proof.
  intros [Hb Hh Hl]. unfold deleteExpense. case_match; [|done].
  split; simpl; [done..|].
  intros e [He|(e0 & He0 & ->)]%elem_of_alter_mark_deleted; [by apply Hl|].
  apply (Hl e0 He0).
Qed.

Lemma copies_ok_step std_sort t c :
  sort_permutes std_sort → copies_ok t → copies_ok (step std_sort t c).2.
Proof.
  intros Hperm Ht. destruct c; simpl; try done.
  - by apply copies_ok_add.
  - rewrite filterByDate_state. destruct Ht as [Hb Hh Hl].
    split; simpl; [done..|].
    intros e He. rewrite (Hperm (expenses t)) in He. by apply Hl.
  - by apply copies_ok_delete.
  - by destruct t.
Qed.

Lemma copies_ok_run std_sort cs t :
  sort_permutes std_sort → copies_ok t → copies_ok (run std_sort cs t).
Proof.
  intros Hperm. revert t. induction cs as [|c cs IH]; intros t Ht; [done|].
  rewrite run_cons. by apply IH, copies_ok_step.
Qed.

(** C3.  In a state reached from a fresh tracker, [deleteExpense index]
    with [index] in range leaves log entry [index] with its amount,
    category and date and with [deleted == true], and changes no other log
    entry; [categoryMap] and [maxHeap] are the same objects as before; the
    copy of the record in its category's bucket and the copy in the queue
    are still there with [deleted == false], as is every other copy. *)
Theorem deleteExpense_marks_log_only
    std_sort (cs : list call) (index : N) :
  sort_permutes std_sort →
  let t := run std_sort cs new_tracker in
  let t' := (deleteExpense index t).2 in
  (index < N.of_nat (length (expenses t)))%N →
  ∃ e, expenses t !! N.to_nat index = Some e
     ∧ expenses t' !! N.to_nat index
       = Some {| amount := amount e; category := category e; date := date e;
                 deleted := true |}
     ∧ (∀ e', expenses t' !! N.to_nat index = Some e' → deleted e' = true)
     ∧ (∀ j, j ≠ N.to_nat index → expenses t' !! j = expenses t !! j)
     ∧ categoryMap t' = categoryMap t
     ∧ maxHeap t' = maxHeap t
     ∧ (∃ b, categoryMap t' !! category e = Some b
             ∧ {| amount := amount e; category := category e; date := date e;
                  deleted := false |} ∈ b)
     ∧ {| amount := amount e; category := category e; date := date e;
          deleted := false |} ∈ maxHeap t'
     ∧ (∀ K b x, categoryMap t' !! K = Some b → x ∈ b → deleted x = false)
     ∧ (∀ x, x ∈ maxHeap t' → deleted x = false).
Proof.
  intros Hperm t t' Hlt.
  pose proof (copies_ok_run std_sort cs _ Hperm copies_ok_new) as Hok.
  fold t in Hok.
  destruct (lookup_lt_is_Some_2 (expenses t) (N.to_nat index)) as [e He]; [lia|].
  exists e. subst t'. rewrite (deleteExpense_valid _ _ Hlt). simpl.
  destruct Hok as [Hb Hh Hl].
  destruct (Hl e) as [Hbk Hq]; [by eapply list_elem_of_lookup_2|].
  assert (alter mark_deleted (N.to_nat index) (expenses t) !! N.to_nat index
          = Some {| amount := amount e; category := category e;
                    date := date e; deleted := true |}) as Hnew
    by (by rewrite list_lookup_alter_eq, He).
  split; [done|]. split; [exact Hnew|]. split.
  { intros e' He'. rewrite Hnew in He'. by injection He' as <-. }
  split.
  { intros j Hj. by rewrite list_lookup_alter_ne. }
  repeat split; done.
Qed.

(** ** The log under [addExpense] and [deleteExpense] *)

Lemma mark_from_empty i l : mark_from ∅ i l = l.
Proof.
  revert i. induction l as [|e l IH]; intros i; simpl; [done|].
  rewrite IH. by destruct (decide (i ∈ (∅ : gset nat))) as [?%not_elem_of_empty|].
Qed.

Lemma mark_from_ext (D D' : gset nat) i l :
  (∀ k, i ≤ k → k ∈ D ↔ k ∈ D') → mark_from D i l = mark_from D' i l.
Proof.
  revert i. induction l as [|e l IH]; intros i H; simpl; [done|].
  rewrite (IH (S i)) by (intros k Hk; apply H; lia).
  specialize (H i (Nat.le_refl i)).
  destruct (decide (i ∈ D)) as [Hi|Hi], (decide (i ∈ D')) as [Hi'|Hi'];
    try done; by destruct H as [H1 H2]; exfalso; auto.
Qed.

Lemma mark_from_alter (D : gset nat) i j l :
  j < length l →
  mark_from D i (alter mark_deleted j l) = mark_from ({[i + j]} ∪ D) i l.
Proof.
  revert i j. induction l as [|e l IH]; intros i j Hj; simpl in Hj; [lia|].
  destruct j as [|j]; simpl.
  - rewrite Nat.add_0_r. f_equal.
    + destruct (decide (i ∈ {[i]} ∪ D)) as [_|Hn]; [|set_solver].
      by destruct (decide (i ∈ D)).
    + apply mark_from_ext. intros k Hk. rewrite elem_of_union, elem_of_singleton.
      split; [auto|]. intros [->|?]; [lia|done].
  - f_equal.
    + destruct (decide (i ∈ D)) as [Hi|Hi],
        (decide (i ∈ {[i + S j]} ∪ D)) as [Hi'|Hi']; try done; [set_solver|].
      apply elem_of_union in Hi' as [Hi'%elem_of_singleton|Hi']; [lia|done].
    + replace (i + S j) with (S i + j) by lia. apply IH. lia.
Qed.

Lemma filter_visible_mark_from (D : gset nat) i l :
  Forall (λ e, deleted e = false) l →
  filter (λ e, visible e = true) (mark_from D i l) = survivors D i l.
Proof.
  intros Hl. revert i. induction Hl as [|e l He Hl IH]; intros i; simpl; [done|].
  destruct (decide (i ∈ D)).
  - rewrite filter_cons_False by (unfold visible; simpl; done). apply IH.
  - rewrite filter_cons_True by (unfold visible; by rewrite He). by rewrite IH.
Qed.

Lemma inserted_clean cs : Forall (λ e, deleted e = false) (inserted cs).
Proof.
  unfold inserted. induction cs as [|c cs IH]; simpl; [done|].
  apply Forall_app. split; [|done]. destruct c; simpl; by repeat constructor.
Qed.

(** The log after calls other than [filterByDate], from any tracker. *)
Lemma expenses_run std_sort cs t :
  no_filterByDate cs →
  expenses (run std_sort cs t)
  = mark_from (tombstones (length (expenses t)) cs) 0 (expenses t ++ inserted cs).
Proof.
  unfold no_filterByDate. revert t.
  induction cs as [|c cs IH]; intros t Hcs.
  { simpl. by rewrite app_nil_r, mark_from_empty. }
  simpl in Hcs. apply andb_true_iff in Hcs as [Hc Hcs].
  rewrite run_cons. destruct c as [amt cat dt| | | |dt|index|n]; try done.
  - rewrite IH by done. simpl. rewrite length_app. simpl.
    rewrite Nat.add_1_r. unfold inserted. simpl. by rewrite <- app_assoc.
  - simpl. by rewrite IH.
  - simpl. by rewrite IH.
  - simpl. by rewrite IH.
  - cbn [step tombstones]. destruct (decide (index < N.of_nat (length (expenses t)))%N)
      as [Hlt|Hge].
    + rewrite (deleteExpense_valid _ _ Hlt). rewrite IH by done.
      cbn [snd expenses]. rewrite length_alter.
      rewrite <- alter_app_l by lia. rewrite mark_from_alter.
      * done.
      * rewrite length_app. lia.
    + rewrite (deleteExpense_invalid _ _ Hge). rewrite IH by done.
      by rewrite (left_id_L ∅ (∪)).
  - cbn [step]. rewrite viewTopExpenses_state. by rewrite IH.
Qed.

(** C7.  After any sequence of calls without [filterByDate], the log
    holds the inserted records in insertion order, flagged exactly at the
    positions that received an in-range [deleteExpense]; [viewExpenses]
    prints the header and then the unflagged ones, in insertion order. *)
Theorem viewExpenses_insertion_order std_sort (cs : list call) :
  no_filterByDate cs →
  let t := run std_sort cs new_tracker in
  expenses t = mark_from (tombstones 0 cs) 0 (inserted cs)
  ∧ viewExpenses t
    = Msg "Amount | Category | Date"
        :: map row_acd (survivors (tombstones 0 cs) 0 (inserted cs)).
Proof.
  intros Hcs t. assert (expenses t = mark_from (tombstones 0 cs) 0 (inserted cs))
    as He by (subst t; by rewrite expenses_run).
  split; [done|]. unfold viewExpenses. rewrite He.
  by rewrite filter_visible_mark_from by apply inserted_clean.
Qed.

(** ** [equal_range] on a date-sorted log *)

Lemma partition_point_le_length p l : partition_point p l ≤ length l.
Proof. induction l as [|e l IH]; simpl; [lia|]. destruct (p e); simpl; lia. Qed.

Lemma partition_point_mono (p q : Expense → bool) l :
  (∀ e, p e = true → q e = true) → partition_point p l ≤ partition_point q l.
Proof.
  intros Hpq. induction l as [|e l IH]; simpl; [lia|].
  destruct (p e) eqn:Hp; [|lia]. rewrite (Hpq e Hp). lia.
Qed.

Lemma Expense_lt_asym a b : Expense_lt a b = true → Expense_lt b a = false.
Proof.
  intros Hab%Expense_lt_true. apply Expense_lt_false.
  by destruct (total date_le a b).
Qed.

Lemma lower_le_upper l v : lower_bound l v ≤ upper_bound l v.
Proof.
  apply partition_point_mono. intros e He. by rewrite (Expense_lt_asym _ _ He).
Qed.

Lemma filter_date_none d (l : list Expense) :
  Forall (λ e, date e ≠ d) l → filter (λ e, date e = d) l = [].
Proof.
  induction 1 as [|e l He Hl IH]; [done|]. by rewrite filter_cons_False.
Qed.

(** On a sorted run that starts at or after [d], the elements dated [d]
    are the first [upper_bound] ones. *)
Lemma take_upper_bound d l :
  StronglySorted date_le l → Forall (λ e, String.le d (date e)) l →
  take (upper_bound l (probe d)) l = filter (λ e, date e = d) l.
Proof.
  induction 1 as [|e l Hl IH He]; intros Hd; [done|].
  apply Forall_cons in Hd as [Hde Hdl].
  unfold upper_bound in *. simpl.
  destruct (Expense_lt (probe d) e) eqn:Hlt; simpl.
  - apply Expense_lt_true in Hlt. unfold date_le in Hlt. simpl in Hlt.
    symmetry. apply filter_date_none. constructor.
    + intros <-. by apply Hlt.
    + eapply Forall_impl; [exact He|]. intros e' Hee' <-. by apply Hlt.
  - apply Expense_lt_false in Hlt. unfold date_le in Hlt. simpl in Hlt.
    assert (date e = d) as Heq by (by apply (anti_symm String.le)).
    rewrite filter_cons_True by done. f_equal. apply IH.
    eapply Forall_impl; [exact He|]. intros e' Hee'.
    unfold date_le in Hee'. by rewrite <- Heq.
Qed.

(** On a sorted log, the range found by [equal_range] holds exactly the
    records dated [d], in log order. *)
Lemma slice_equal_range d l :
  StronglySorted date_le l →
  slice l (equal_range l (probe d)) = filter (λ e, date e = d) l.
Proof.
  intros Hs. unfold slice, equal_range. cbn [fst snd].
  induction Hs as [|e l Hl IH He]; [done|].
  unfold lower_bound, upper_bound in *. cbn [partition_point].
  destruct (Expense_lt e (probe d)) eqn:Hlt.
  - rewrite (Expense_lt_asym _ _ Hlt). simpl.
    apply Expense_lt_true in Hlt. unfold date_le in Hlt. simpl in Hlt.
    rewrite filter_cons_False; [done|]. intros <-. by apply Hlt.
  - rewrite Nat.sub_0_r. cbn [drop].
    apply (take_upper_bound d (e :: l)); [by constructor|].
    apply Expense_lt_false in Hlt. unfold date_le in Hlt. simpl in Hlt.
    constructor; [done|].
    eapply Forall_impl; [exact He|]. intros e' Hee'. by etrans.
Qed.

Lemma equal_range_width d l :
  StronglySorted date_le l →
  upper_bound l (probe d) - lower_bound l (probe d)
  = length (filter (λ e, date e = d) l).
Proof.
  intros Hs. rewrite <- (slice_equal_range d l Hs). unfold slice, equal_range.
  cbn [fst snd]. rewrite length_take, length_drop.
  pose proof (partition_point_le_length (λ e, negb (Expense_lt (probe d) e)) l).
  unfold upper_bound. lia.
Qed.

Lemma data_rows_row_ac l : data_rows (map row_ac l) = map row_ac l.
Proof.
  unfold data_rows. induction l as [|e l IH]; [done|]. simpl.
  by rewrite filter_cons_True, IH.
Qed.

Section DateFilter.
Variable std_sort : list Expense → list Expense.
Hypothesis Hperm : sort_permutes std_sort.
Hypothesis Hsorted : sort_sorts std_sort.

Lemma std_sort_date_le l : StronglySorted date_le (std_sort l).
Proof.
  eapply StronglySorted_mono; [|apply Hsorted]. intros a b.
  apply Expense_lt_false.
Qed.

(** The two outcomes of [filterByDate], by whether the log has a record
    dated [dt]. *)
Lemma filterByDate_output dt t :
  let on_date := filter (λ e, date e = dt) (std_sort (expenses t)) in
  (filterByDate std_sort dt t).1
  = match on_date with
    | [] => [Msg ("No expenses found for date: " +:+ dt)]
    | _ => Msg ("Expenses for " +:+ dt +:+ ":") :: Msg "Amount | Category"
             :: map row_ac (filter (λ e, visible e = true) on_date)
    end.
Proof.
  simpl. unfold filterByDate. cbn [equal_range fst snd].
  pose proof (equal_range_width dt _ (std_sort_date_le (expenses t))) as Hw.
  pose proof (lower_le_upper (std_sort (expenses t)) (probe dt)) as Hle.
  destruct (Nat.eqb_spec (lower_bound (std_sort (expenses t)) (probe dt))
              (upper_bound (std_sort (expenses t)) (probe dt))) as [Heq|Hne].
  - rewrite Heq, Nat.sub_diag in Hw.
    by destruct (filter _ (std_sort (expenses t))).
  - change (lower_bound ?l ?v, upper_bound ?l ?v) with (equal_range l v).
    rewrite (slice_equal_range dt _ (std_sort_date_le (expenses t))).
    destruct (filter _ (std_sort (expenses t))) eqn:E; [simpl in Hw; lia|done].
Qed.

Lemma filterByDate_rows dt t :
  data_rows (filterByDate std_sort dt t).1
  ≡ₚ map row_ac
       (filter (λ e, date e = dt ∧ deleted e = false) (expenses t)).
Proof.
  rewrite filterByDate_output. simpl.
  assert (∀ l : list Expense,
            filter (λ e, visible e = true) (filter (λ e, date e = dt) l)
            = filter (λ e, date e = dt ∧ deleted e = false) l) as Hff.
  { intros l. rewrite list_filter_filter. apply list_filter_iff.
    intros e. unfold visible. destruct (deleted e); simpl; intuition congruence. }
  rewrite <- (Hperm (expenses t)) at 2. rewrite <- Hff.
  destruct (filter _ (std_sort (expenses t))) eqn:E; [done|].
  unfold data_rows at 1. rewrite !filter_cons_False by done.
  fold (data_rows (map row_ac (filter (λ e, visible e = true) (e :: l)))).
  by rewrite data_rows_row_ac.
Qed.

End DateFilter.

(** C5.  For every tracker and every date [dt], the data lines printed by
    [filterByDate dt] are, up to their order, the lines of exactly the log
    records dated [dt] whose flag is unset; the order in which the log
    holds the records does not matter; and when no record is dated [dt] the
    only line printed is the "No expenses found" message. *)
Theorem filterByDate_lists_visible_on_date
    std_sort (dt : string) (t : ExpenseTracker) :
  sort_permutes std_sort → sort_sorts std_sort →
  let out := (filterByDate std_sort dt t).1 in
  data_rows out
    ≡ₚ map row_ac (filter (λ e, date e = dt ∧ deleted e = false) (expenses t))
  ∧ (∀ t2, expenses t2 ≡ₚ expenses t →
           data_rows (filterByDate std_sort dt t2).1 ≡ₚ data_rows out)
  ∧ ((∀ e, e ∈ expenses t → date e ≠ dt) →
     out = [Msg ("No expenses found for date: " +:+ dt)]).
Proof.
  intros Hperm Hsorted. simpl. split; [|split].
  - by apply filterByDate_rows.
  - intros t2 Ht2. rewrite !filterByDate_rows by done. by rewrite Ht2.
  - intros Hnone. rewrite filterByDate_output by done. simpl.
    rewrite filter_date_none; [done|].
    apply Forall_forall. intros e He. apply Hnone.
    by rewrite <- (Hperm (expenses t)).
Qed.

(** C6.  [filterByDate] leaves the log as a rearrangement of what it held,
    each record with all four fields as before, in non-decreasing
    lexicographic order of [date]; the other three members are untouched.
    Positions can change hands: there is a reachable tracker in which
    some index holds a different record after the call. *)
Theorem filterByDate_sorts_log
    std_sort (dt : string) (t : ExpenseTracker) :
  sort_permutes std_sort → sort_sorts std_sort →
  let t' := (filterByDate std_sort dt t).2 in
  expenses t' ≡ₚ expenses t
  ∧ StronglySorted (λ a b, String.leb (date a) (date b) = true) (expenses t')
  ∧ categoryMap t' = categoryMap t
  ∧ categoryTotals t' = categoryTotals t
  ∧ maxHeap t' = maxHeap t
  ∧ ∃ cs i, let s := run std_sort cs new_tracker in
            expenses (filterByDate std_sort dt s).2 !! i ≠ expenses s !! i.
Proof.
  intros Hperm Hsorted. simpl. rewrite filterByDate_state. simpl.
  split; [apply Hperm|]. split.
  { eapply StronglySorted_mono; [|apply (std_sort_date_le std_sort Hsorted)].
    intros a b Hab. by apply Is_true_true. }
  do 3 (split; [done|]).
  exists [AddExpense 2%float "b" "2024-01-06"; AddExpense 1%float "a" "2024-01-05"], 0.
  rewrite filterByDate_state. cbn [run fold_left step snd addExpense expenses new_tracker app].
  set (e2 := {| amount := 2%float; category := "b"; date := "2024-01-06"; deleted := false |}).
  set (e1 := {| amount := 1%float; category := "a"; date := "2024-01-05"; deleted := false |}).
  pose proof (Hperm [e2; e1]) as Hp. pose proof (Hsorted [e2; e1]) as Hs.
  destruct (std_sort [e2; e1]) as [|x l]; [by apply Permutation_nil_cons in Hp|].
  simpl. intros [= ->].
  apply Permutation_cons_inv, Permutation_singleton_r in Hp as ->.
  apply StronglySorted_inv in Hs as [_ Hs]. by apply Forall_cons in Hs as [Hs _].
Qed.

(** ** [viewTopExpenses] and deleted records *)

(** With no flagged copy in the queue the loop prints the first [n - i]
    entries and skips nothing. *)
Lemma top_loop_clean i n h :
  Forall (λ e, deleted e = false) h →
  (top_loop i n h).1 = map row_acd (take (N.to_nat (n - i)) h).
Proof.
  intros Hh. revert i. induction Hh as [|e h He Hh IH]; intros i; simpl.
  { by rewrite take_nil. }
  destruct (N.ltb_spec i n) as [Hlt|Hge]; simpl.
  - unfold visible. rewrite He. simpl. rewrite IH.
    by replace (N.to_nat (n - i)) with (S (N.to_nat (n - (i + 1)))) by lia.
  - by replace (N.to_nat (n - i)) with 0 by lia.
Qed.

(** In a reachable state [viewTopExpenses n] prints the first [n] entries
    of the queue, whatever has been deleted from the log. *)
Lemma viewTopExpenses_reachable std_sort cs n :
  sort_permutes std_sort →
  let t := run std_sort cs new_tracker in
  (viewTopExpenses n t).1
  = TopHeader n :: Msg "Amount | Category | Date"
      :: map row_acd (take (N.to_nat n) (maxHeap t)).
Proof.
  intros Hperm. simpl. rewrite top_loop_clean.
  - by rewrite N.sub_0_r.
  - apply Forall_forall.
    apply (heap_clean _ (copies_ok_run std_sort cs _ Hperm copies_ok_new)).
Qed.

(** [deleteExpense] never changes what [viewTopExpenses] prints. *)
Lemma viewTopExpenses_after_delete n index t :
  (viewTopExpenses n (deleteExpense index t).2).1 = (viewTopExpenses n t).1.
Proof.
  unfold viewTopExpenses. cbn [fst].
  by destruct (deleteExpense_maps index t) as (_ & _ & ->).
Qed.

(** C2 (not met by the code).  After
    [addExpense(10, "food", "2024-01-05")] and [deleteExpense(0)] the log
    has no visible record and [viewExpenses] prints only its header, yet
    [viewTopExpenses(1)] prints the deleted record: the queue holds a copy
    whose flag was never set, so the test [!top.deleted] cannot skip it. *)
Theorem viewTopExpenses_prints_deleted_record :
  let t := (deleteExpense 0 (addExpense 10%float "food" "2024-01-05" new_tracker)).2 in
  filter (λ e, visible e = true) (expenses t) = []
  ∧ viewExpenses t = [Msg "Amount | Category | Date"]
  ∧ (viewTopExpenses 1 t).1
    = [TopHeader 1; Msg "Amount | Category | Date";
       Row_acd 10%float "food" "2024-01-05"].
Proof. by repeat split. Qed.

(** ** A worked session *)

Example example_totals :
  categoryTotals example_tracker !! "food" = Some 52.5%float
  ∧ categoryTotals example_tracker !! "travel" = Some 100%float.
Proof. split; vm_compute; reflexivity. Qed.

Example example_top2 :
  (viewTopExpenses 2 example_tracker).1
  = [TopHeader 2; Msg "Amount | Category | Date";
     Row_acd 100%float "travel" "2024-01-05";
     Row_acd 40%float "food" "2024-01-06"].
Proof. vm_compute. reflexivity. Qed.

Example example_by_date :
  (filterByDate date_sort "2024-01-05" example_tracker).1
  = [Msg "Expenses for 2024-01-05:"; Msg "Amount | Category";
     Row_ac 100%float "travel"; Row_ac 12.5%float "food"].
Proof. vm_compute. reflexivity. Qed.

Example example_delete_then_view :
  let t := (deleteExpense 0 example_tracker).2 in
  viewExpenses t
  = [Msg "Amount | Category | Date";
     Row_acd 40%float "food" "2024-01-06";
     Row_acd 100%float "travel" "2024-01-05"]
  ∧ categoryTotals t !! "food" = Some 52.5%float.
Proof. split; vm_compute; reflexivity. Qed.

Example example_delete_out_of_range :
  deleteExpense 3 example_tracker = ([Msg "Invalid index."], example_tracker).
Proof. reflexivity. Qed.

(** ** The statements with hypotheses, run on the worked session *)

Lemma deleteExpense_marks_log_only_witness :
  sort_permutes date_sort
  ∧ (1 < N.of_nat (length (expenses example_tracker)))%N
  ∧ ∃ e, expenses example_tracker !! 1 = Some e
       ∧ expenses (deleteExpense 1 example_tracker).2 !! 1
         = Some {| amount := amount e; category := category e; date := date e;
                   deleted := true |}
       ∧ {| amount := amount e; category := category e; date := date e;
            deleted := false |} ∈ maxHeap (deleteExpense 1 example_tracker).2.
Proof.
  split; [exact date_sort_permutes|]. split; [vm_compute; reflexivity|].
  destruct (deleteExpense_marks_log_only date_sort example_calls 1
              date_sort_permutes) as (e & H1 & H2 & _ & _ & _ & _ & _ & H3 & _).
  - vm_compute. reflexivity.
  - exists e. repeat split; assumption.
Defined.

Lemma filterByDate_lists_visible_on_date_witness :
  sort_permutes date_sort ∧ sort_sorts date_sort
  ∧ data_rows (filterByDate date_sort "2024-01-05" example_tracker).1
    ≡ₚ map row_ac (filter (λ e, date e = "2024-01-05" ∧ deleted e = false)
                     (expenses example_tracker)).
Proof.
  split; [exact date_sort_permutes|]. split; [exact date_sort_sorts|].
  apply (filterByDate_lists_visible_on_date date_sort "2024-01-05"
           example_tracker date_sort_permutes date_sort_sorts).
Defined.

Lemma filterByDate_sorts_log_witness :
  sort_permutes date_sort ∧ sort_sorts date_sort
  ∧ expenses (filterByDate date_sort "2024-01-05" example_tracker).2
    ≡ₚ expenses example_tracker.
Proof.
  split; [exact date_sort_permutes|]. split; [exact date_sort_sorts|].
  apply (filterByDate_sorts_log date_sort "2024-01-05" example_tracker
           date_sort_permutes date_sort_sorts).
Defined.

Lemma viewExpenses_insertion_order_witness :
  let cs := example_calls ++ [DeleteExpense 0; ViewTopExpenses 2; DeleteExpense 7] in
  no_filterByDate cs
  ∧ viewExpenses (run date_sort cs new_tracker)
    = Msg "Amount | Category | Date"
        :: map row_acd (survivors (tombstones 0 cs) 0 (inserted cs)).
Proof.
  split; [reflexivity|].
  apply (viewExpenses_insertion_order date_sort
           (example_calls ++ [DeleteExpense 0; ViewTopExpenses 2; DeleteExpense 7])).
  reflexivity.
Defined.


(** ** Buckets and [filterByCategory] *)

Lemma inserted_snoc cs c : inserted (cs ++ [c]) = inserted cs ++ inserted_by c.
Proof.
  unfold inserted. rewrite map_app, concat_app. simpl. by rewrite app_nil_r.
Qed.

(** The bucket of [K] after any sequence of calls. *)
Lemma categoryMap_run std_sort cs K :
  categoryMap (run std_sort cs new_tracker) !! K
  = match inserted_in K cs with
    | [] => None
    | _ => Some (inserted_in K cs)
    end.
Proof.
  induction cs as [|c cs IH] using rev_ind; [done|].
  rewrite run_snoc. unfold inserted_in in *. rewrite inserted_snoc, filter_app.
  pose proof (step_maps std_sort (run std_sort cs new_tracker) c) as Hc.
  set (F := filter (λ e, category e = K) (inserted cs)) in *.
  destruct c as [amt cat dt| | | | | |];
    try (destruct Hc as (-> & _ & _); cbn [inserted_by]; rewrite filter_nil;
         by rewrite app_nil_r).
  cbn [step snd addExpense categoryMap inserted_by].
  destruct (decide (cat = K)) as [->|Hne].
  - rewrite lookup_insert_eq, IH, filter_cons_True by done. rewrite filter_nil.
    by destruct F.
  - rewrite lookup_insert_ne by done.
    rewrite filter_cons_False by done. rewrite filter_nil.
    by rewrite app_nil_r.
Qed.

Lemma inserted_in_clean K cs :
  Forall (λ e, category e = K ∧ deleted e = false) (inserted_in K cs).
Proof.
  apply Forall_forall. intros e [HK He]%list_elem_of_filter. split; [done|].
  by apply (proj1 (Forall_forall _ _) (inserted_clean cs)).
Qed.

Lemma filter_visible_clean (l : list Expense) :
  Forall (λ e, deleted e = false) l → filter (λ e, visible e = true) l = l.
Proof.
  induction 1 as [|e l He Hl IH]; [done|].
  rewrite filter_cons_True by (unfold visible; by rewrite He). by rewrite IH.
Qed.

(** X1.  After any sequence of calls, the bucket of a category is the
    list of the records inserted with that category, in insertion order and
    with their flags unset; a category has no bucket exactly when nothing
    was inserted with it, and no bucket is empty. *)
Theorem buckets_hold_inserts_of_category std_sort (cs : list call) (K : string) :
  let t := run std_sort cs new_tracker in
  (categoryMap t !! K = None ↔ inserted_in K cs = [])
  ∧ ∀ b, categoryMap t !! K = Some b →
         b = inserted_in K cs ∧ b ≠ []
         ∧ Forall (λ e, category e = K ∧ deleted e = false) b.
Proof.
  simpl. rewrite categoryMap_run. pose proof (inserted_in_clean K cs) as Hc.
  destruct (inserted_in K cs) as [|e l] eqn:E.
  - split; [done|]. by intros b.
  - split; [done|]. intros b [= <-]. done.
Qed.

(** X2.  After any sequence of calls, [filterByCategory K] prints its two
    header lines and then either the "No expenses found" message, when
    nothing was ever inserted with [K], or one row for every record ever
    inserted with [K], in insertion order; neither [deleteExpense] nor
    [filterByDate] changes that listing. *)
Theorem filterByCategory_lists_every_insert std_sort (cs : list call) (K : string) :
  filterByCategory K (run std_sort cs new_tracker)
  = Msg ("Expenses for category: " +:+ K) :: Msg "Amount | Date"
      :: match inserted_in K cs with
         | [] => [Msg "No expenses found for this category."]
         | b => map row_ad b
         end.
Proof.
  unfold filterByCategory. rewrite categoryMap_run.
  pose proof (inserted_in_clean K cs) as Hc.
  destruct (inserted_in K cs) as [|e l] eqn:E; [done|].
  rewrite filter_visible_clean; [done|].
  eapply Forall_impl; [exact Hc|]. by intros x [_ Hx].
Qed.

(** ** [viewCategoryTotals] *)

(** X3.  After any sequence of calls, [viewCategoryTotals] prints its header
    and then one line per category: the categories of the lines are all
    different, and a line for [K] with total [v] is printed exactly when
    something was inserted with [K] and [v] is the sum of those amounts. *)
Theorem viewCategoryTotals_lines std_sort (cs : list call) :
  let t := run std_sort cs new_tracker in
  ∃ kvs : list (string * float),
    viewCategoryTotals t
    = Msg "Total Expenses by Category:" :: map (λ kv, Row_total kv.1 kv.2) kvs
    ∧ NoDup kvs.*1
    ∧ ∀ K v, (K, v) ∈ kvs
             ↔ amounts_added K cs ≠ [] ∧ v = float_sum (amounts_added K cs).
Proof.
  simpl. exists (map_to_list (categoryTotals (run std_sort cs new_tracker))).
  split; [done|]. split; [apply NoDup_fst_map_to_list|].
  intros K v. rewrite elem_of_map_to_list, categoryTotals_run.
  destruct (amounts_added K cs) eqn:E.
  - split; [done|]. by intros [? _].
  - split; [by intros [= <-]|]. by intros [_ ->].
Qed.

(** ** The queue and the log hold what was inserted *)

Lemma maxHeap_run std_sort cs : maxHeap (run std_sort cs new_tracker) ≡ₚ inserted cs.
Proof.
  induction cs as [|c cs IH] using rev_ind; [done|].
  rewrite run_snoc, inserted_snoc.
  pose proof (step_maps std_sort (run std_sort cs new_tracker) c) as Hc.
  destruct c as [amt cat dt| | | | | |];
    try (destruct Hc as (_ & _ & ->); cbn [inserted_by]; by rewrite app_nil_r).
  cbn [step snd addExpense maxHeap inserted_by].
  rewrite pq_push_Permutation, IH. by rewrite Permutation_cons_append.
Qed.

Lemma map_as_inserted_alter i (l : list Expense) :
  map as_inserted (alter mark_deleted i l) = map as_inserted l.
Proof.
  revert i. induction l as [|e l IH]; intros [|i]; simpl; try done.
  f_equal. apply IH.
Qed.

Lemma expenses_run_Permutation std_sort cs :
  sort_permutes std_sort →
  map as_inserted (expenses (run std_sort cs new_tracker)) ≡ₚ inserted cs.
Proof.
  intros Hperm. induction cs as [|c cs IH] using rev_ind; [done|].
  rewrite run_snoc, inserted_snoc.
  set (t := run std_sort cs new_tracker) in *.
  destruct c as [amt cat dt| | | |dt|index|n]; cbn [step snd inserted_by];
    rewrite ?app_nil_r; try done.
  - cbn [addExpense expenses]. rewrite map_app. by rewrite IH.
  - rewrite filterByDate_state. cbn [expenses].
    by rewrite (Permutation_map as_inserted (Hperm (expenses t))).
  - unfold deleteExpense. case_match; [|done]. cbn [snd expenses].
    by rewrite map_as_inserted_alter.
Qed.

(** X4.  After any sequence of calls the queue holds exactly the records
    ever inserted, each once and with its flag unset, whatever was deleted
    or re-sorted in between. *)
Theorem maxHeap_holds_every_insert std_sort (cs : list call) :
  let t := run std_sort cs new_tracker in
  maxHeap t ≡ₚ inserted cs
  ∧ length (maxHeap t) = length (inserted cs)
  ∧ Forall (λ e, deleted e = false) (maxHeap t).
Proof.
  simpl. pose proof (maxHeap_run std_sort cs) as Hp. split; [done|]. split.
  - by rewrite Hp.
  - rewrite Hp. apply inserted_clean.
Qed.

(** X5.  No call removes or duplicates a log record: after any sequence of
    calls the log holds, up to order and up to the [deleted] flags, exactly
    the inserted records, and as many entries as there were [addExpense]
    calls; the queue holds the same records with the flags unset. *)
Theorem log_keeps_every_insert std_sort (cs : list call) :
  sort_permutes std_sort →
  let t := run std_sort cs new_tracker in
  map as_inserted (expenses t) ≡ₚ inserted cs
  ∧ length (expenses t) = length (inserted cs)
  ∧ maxHeap t ≡ₚ map as_inserted (expenses t).
Proof.
  intros Hperm. simpl.
  pose proof (expenses_run_Permutation std_sort cs Hperm) as Hp.
  split; [done|]. split.
  - by rewrite <- Hp, length_map.
  - by rewrite Hp, maxHeap_run.
Qed.

(** ** The order of the queue *)

Ltac cmp_cases :=
  repeat match goal with
  | |- context [Z.compare ?x ?y] => destruct (Z.compare_spec x y)
  | |- context [Pos.compare_cont Eq ?x ?y] =>
      change (Pos.compare_cont Eq x y) with (Pos.compare x y);
      destruct (Pos.compare_spec x y)
  end.

Lemma SFltb_trans a b c :
  SFltb a b = true → SFltb b c = true → SFltb a c = true.
Proof.
  unfold SFltb, SFcompare.
  destruct a as [[]|[]| |[] ma ea], b as [[]|[]| |[] mb eb],
    c as [[]|[]| |[] mc ec]; simpl; try done.
  all: cmp_cases; simpl; intros; subst; try done; try lia.
Qed.

Lemma SFltb_asym a b : SFltb a b = true → SFltb b a = false.
Proof.
  unfold SFltb, SFcompare.
  destruct a as [[]|[]| |[] ma ea], b as [[]|[]| |[] mb eb]; simpl; try done.
  all: cmp_cases; simpl; intros; subst; try done; try lia.
Qed.

(** [<] on [double] is transitive and asymmetric, NaN included. *)
Lemma CompareByAmount_trans a b c :
  CompareByAmount a b = true → CompareByAmount b c = true →
  CompareByAmount a c = true.
Proof.
  unfold CompareByAmount. rewrite !FloatAxioms.ltb_spec. apply SFltb_trans.
Qed.

Lemma CompareByAmount_asym a b :
  CompareByAmount a b = true → CompareByAmount b a = false.
Proof.
  unfold CompareByAmount. rewrite !FloatAxioms.ltb_spec. apply SFltb_asym.
Qed.

Lemma pq_push_sorted x h :
  StronglySorted amount_ge h → StronglySorted amount_ge (pq_push x h).
Proof.
  induction 1 as [|y h Hh IH Hy]; simpl.
  { repeat constructor. }
  destruct (CompareByAmount y x) eqn:Hyx.
  - constructor; [by constructor|]. constructor.
    + by apply CompareByAmount_asym.
    + eapply Forall_impl; [exact Hy|]. intros z Hyz. unfold amount_ge in *.
      destruct (CompareByAmount x z) eqn:Hxz; [|done].
      by rewrite (CompareByAmount_trans _ _ _ Hyx Hxz) in Hyz.
  - constructor; [done|]. rewrite pq_push_Permutation. by constructor.
Qed.

Lemma maxHeap_sorted std_sort cs :
  StronglySorted amount_ge (maxHeap (run std_sort cs new_tracker)).
Proof.
  induction cs as [|c cs IH] using rev_ind; [constructor|].
  rewrite run_snoc.
  pose proof (step_maps std_sort (run std_sort cs new_tracker) c) as Hc.
  destruct c as [amt cat dt| | | | | |];
    try (by destruct Hc as (_ & _ & ->)).
  by apply pq_push_sorted.
Qed.

(** What the loop prints from any queue: the unflagged ones among the
    first [n - i] entries.  A flagged entry uses up an iteration. *)
Lemma top_loop_rows i n h :
  (top_loop i n h).1
  = map row_acd (filter (λ e, visible e = true) (take (N.to_nat (n - i)) h)).
Proof.
  revert i. induction h as [|e h IH]; intros i; simpl.
  { by rewrite take_nil. }
  destruct (N.ltb_spec i n) as [Hlt|Hge]; simpl.
  - rewrite IH.
    replace (N.to_nat (n - i)) with (S (N.to_nat (n - (i + 1)))) by lia.
    cbn [take]. rewrite filter_cons. by destruct (visible e).
  - by replace (N.to_nat (n - i)) with 0 by lia.
Qed.

(** X6.  For any tracker, [viewTopExpenses n] prints its two header lines
    and then the rows of the unflagged entries among the first [n] of the
    queue, so never more than [n] rows; an entry that is flagged is skipped
    but still counts towards [n]. *)
Theorem viewTopExpenses_output (n : N) (t : ExpenseTracker) :
  (viewTopExpenses n t).1
  = TopHeader n :: Msg "Amount | Category | Date"
      :: map row_acd
           (filter (λ e, visible e = true) (take (N.to_nat n) (maxHeap t)))
  ∧ length (data_rows (viewTopExpenses n t).1) ≤ N.to_nat n.
Proof.
  assert ((viewTopExpenses n t).1
          = TopHeader n :: Msg "Amount | Category | Date"
              :: map row_acd (filter (λ e, visible e = true)
                                (take (N.to_nat n) (maxHeap t)))) as ->.
  { unfold viewTopExpenses. cbn [fst]. by rewrite top_loop_rows, N.sub_0_r. }
  split; [done|]. unfold data_rows. rewrite !filter_cons_False by done.
  rewrite length_filter, length_map, length_filter, length_take. lia.
Qed.

Lemma SFleb_of_not_ltb a b :
  SFeqb a a = true → SFeqb b b = true → SFltb a b = false → SFleb b a = true.
Proof.
  unfold SFeqb, SFltb, SFleb, SFcompare.
  destruct a as [[]|[]| |[] ma ea], b as [[]|[]| |[] mb eb]; simpl; try done.
  all: intros _ _; cmp_cases; simpl; intros; subst; try done; try lia.
Qed.

(** Without NaN, "not less" is "at least". *)
Lemma amount_ge_le a b :
  PrimFloat.is_nan (amount a) = false → PrimFloat.is_nan (amount b) = false →
  amount_ge a b → amount_le b a.
Proof.
  unfold amount_ge, amount_le, CompareByAmount, is_nan.
  intros Ha%negb_false_iff Hb%negb_false_iff.
  rewrite FloatAxioms.eqb_spec in Ha, Hb.
  rewrite FloatAxioms.ltb_spec, FloatAxioms.leb_spec.
  by apply SFleb_of_not_ltb.
Qed.

Lemma StronglySorted_mono_Forall {A} (P : A → Prop) (R1 R2 : relation A) l :
  (∀ a b, P a → P b → R1 a b → R2 a b) →
  Forall P l → StronglySorted R1 l → StronglySorted R2 l.
Proof.
  intros HR HP. induction 1 as [|a l Hl IH Ha]; [constructor|].
  apply Forall_cons in HP as [HPa HPl]. constructor; [by apply IH|].
  apply Forall_forall. intros b Hb.
  apply HR; [done| |].
  - by apply (proj1 (Forall_forall _ _) HPl).
  - by apply (proj1 (Forall_forall _ _) Ha).
Qed.

(** X7.  Let [d] be any order in which a priority queue holding the
    tracker's queue content can deliver it: a rearrangement of that content
    in which no entry compares less than a later one.  After any sequence
    of calls in which no inserted amount is a NaN, the loop of
    [viewTopExpenses n] run on [d] prints the first [n] entries of [d] (all
    of them if there are fewer) and leaves the others.  Printed and
    unprinted entries together are the records ever inserted, deleted ones
    included; the printed amounts never increase from one row to a later
    one, and no unprinted record has a larger amount than a printed one. *)
Theorem viewTopExpenses_prints_largest
    std_sort (cs : list call) (n : N) (d : list Expense) :
  no_nan_amounts cs →
  d ≡ₚ maxHeap (run std_sort cs new_tracker) →
  StronglySorted amount_ge d →
  let printed := take (N.to_nat n) d in
  let rest := drop (N.to_nat n) d in
  top_loop 0 n d = (map row_acd printed, rest)
  ∧ printed ++ rest ≡ₚ inserted cs
  ∧ length printed = N.to_nat n `min` length (inserted cs)
  ∧ StronglySorted (λ a b, amount_le b a) printed
  ∧ ∀ a b, a ∈ printed → b ∈ rest → amount_le b a.
Proof.
  intros Hnan Hd Hsd printed rest.
  assert (d ≡ₚ inserted cs) as Hp by (by rewrite Hd, maxHeap_run).
  assert (Forall (λ e, PrimFloat.is_nan (amount e) = false) d) as Hn.
  { rewrite Hp. apply Forall_forall. intros e He%list_elem_of_In.
    apply negb_true_iff. revert e He. by apply forallb_forall. }
  assert (StronglySorted (λ a b, amount_le b a) d) as Hs.
  { eapply StronglySorted_mono_Forall; [|exact Hn|exact Hsd].
    intros a b. apply amount_ge_le. }
  subst printed rest.
  rewrite <- (take_drop (N.to_nat n) d) in Hs.
  apply StronglySorted_app in Hs as (Hs12 & Hs1 & _).
  split; [|split; [|split; [|split]]].
  - rewrite (surjective_pairing (top_loop 0 n d)).
    rewrite top_loop_rows, top_loop_rest, N.sub_0_r. do 2 f_equal.
    apply filter_visible_clean, Forall_take.
    rewrite Hp. apply inserted_clean.
  - by rewrite take_drop.
  - by rewrite length_take, <- Hp.
  - done.
  - intros a b Ha Hb. by apply Hs12.
Qed.

(** ** More on [filterByDate] *)

Lemma filter_none {A} (P : A → Prop) `{∀ x, Decision (P x)} (l : list A) :
  Forall (λ x, ¬ P x) l → filter P l = [].
Proof. induction 1 as [|x l Hx Hl IH]; [done|]. by rewrite filter_cons_False. Qed.

Lemma StronglySorted_filter {A} (R : relation A) (P : A → Prop)
    `{∀ x, Decision (P x)} (l : list A) :
  StronglySorted R l → StronglySorted R (filter P l).
Proof.
  induction 1 as [|x l Hl IH Hx]; [constructor|].
  rewrite filter_cons. destruct (decide (P x)); [|done].
  constructor; [done|]. apply Forall_forall.
  intros y [_ Hy]%list_elem_of_filter.
  by apply (proj1 (Forall_forall _ _) Hx).
Qed.

(** X8.  [filterByDate d] prints the "No expenses found" message exactly
    when the log has no record dated [d], deleted or not.  When records
    dated [d] exist but all of them are deleted, it prints the two header
    lines and no row. *)
Theorem filterByDate_message std_sort (dt : string) (t : ExpenseTracker) :
  sort_permutes std_sort → sort_sorts std_sort →
  ((filterByDate std_sort dt t).1 = [Msg ("No expenses found for date: " +:+ dt)]
     ↔ ∀ e, e ∈ expenses t → date e ≠ dt)
  ∧ ((∃ e, e ∈ expenses t ∧ date e = dt) →
     (∀ e, e ∈ expenses t → date e = dt → deleted e = true) →
     (filterByDate std_sort dt t).1
     = [Msg ("Expenses for " +:+ dt +:+ ":"); Msg "Amount | Category"]).
Proof.
  intros Hperm Hsorted. rewrite (filterByDate_output std_sort Hsorted dt t).
  cbv zeta. split; [split|].
  - intros Hout e He Hd.
    destruct (filter (λ e, date e = dt) (std_sort (expenses t))) eqn:E; [|done].
    eapply (filter_nil_not_elem_of _ _ e E Hd). by rewrite (Hperm (expenses t)).
  - intros Hnone. rewrite filter_none; [done|].
    apply Forall_forall. intros e He. apply Hnone.
    by rewrite <- (Hperm (expenses t)).
  - intros (e & He & Hd) Hdel.
    destruct (filter (λ e, date e = dt) (std_sort (expenses t))) as [|x l] eqn:E.
    { destruct (filter_nil_not_elem_of _ _ e E Hd).
      by rewrite (Hperm (expenses t)). }
    rewrite filter_none; [done|]. rewrite <- E.
    apply Forall_forall. intros y [Hy Hin]%list_elem_of_filter.
    rewrite (Hperm (expenses t)) in Hin. unfold visible.
    by rewrite (Hdel y Hin Hy).
Qed.

(** X9.  After [filterByDate], [viewExpenses] lists the same visible
    records as before, but in non-decreasing order of date instead of
    insertion order. *)
Theorem viewExpenses_after_filterByDate std_sort (dt : string) (t : ExpenseTracker) :
  sort_permutes std_sort → sort_sorts std_sort →
  ∃ l, viewExpenses (filterByDate std_sort dt t).2
       = Msg "Amount | Category | Date" :: map row_acd l
     ∧ l ≡ₚ filter (λ e, visible e = true) (expenses t)
     ∧ StronglySorted date_le l.
Proof.
  intros Hperm Hsorted. rewrite filterByDate_state.
  exists (filter (λ e, visible e = true) (std_sort (expenses t))).
  split; [done|]. split.
  - by rewrite (Hperm (expenses t)).
  - apply StronglySorted_filter, (std_sort_date_le std_sort Hsorted).
Qed.

(** ** [addExpense] and [deleteExpense] together *)

(** X10.  [addExpense] puts the new record, unflagged, at the index equal
    to the former size of the log, leaves every earlier entry alone, and
    adds one row for it at the end of what [viewExpenses] prints. *)
Theorem addExpense_appends (amt : float) (cat dt : string) (t : ExpenseTracker) :
  let t' := addExpense amt cat dt t in
  expenses t' !! length (expenses t)
  = Some {| amount := amt; category := cat; date := dt; deleted := false |}
  ∧ length (expenses t') = S (length (expenses t))
  ∧ (∀ i, i < length (expenses t) → expenses t' !! i = expenses t !! i)
  ∧ viewExpenses t' = viewExpenses t ++ [Row_acd amt cat dt].
Proof.
  simpl. repeat split.
  - by rewrite lookup_app_r, Nat.sub_diag.
  - rewrite length_app. simpl. lia.
  - intros i Hi. by rewrite lookup_app_l.
  - unfold viewExpenses. simpl. rewrite filter_app, map_app. done.
Qed.

(** X11.  Deleting the record just added, by the index [addExpense] gave
    it, succeeds and makes [viewExpenses] print what it printed before the
    insertion; the category maps and the queue keep the record. *)
Theorem add_then_delete (amt : float) (cat dt : string) (t : ExpenseTracker) :
  let t1 := addExpense amt cat dt t in
  let r := deleteExpense (N.of_nat (length (expenses t))) t1 in
  r.1 = [Msg "Expense deleted lazily."]
  ∧ viewExpenses r.2 = viewExpenses t
  ∧ categoryMap r.2 = categoryMap t1
  ∧ categoryTotals r.2 = categoryTotals t1
  ∧ maxHeap r.2 = maxHeap t1.
Proof.
  intros t1 r. subst r.
  rewrite deleteExpense_valid.
  2:{ subst t1. cbn [addExpense expenses]. rewrite length_app. simpl. lia. }
  cbn [fst snd]. repeat split. unfold viewExpenses. cbn [expenses]. f_equal. f_equal.
  subst t1. cbn [addExpense expenses]. rewrite Nat2N.id.
  rewrite <- (Nat.add_0_r (length (expenses t))), alter_app_r. simpl.
  rewrite filter_app. rewrite filter_cons_False by done.
  rewrite filter_nil. by rewrite app_nil_r.
Qed.

(** X12.  Two [deleteExpense] calls can be made in either order: the
    tracker afterwards is the same. *)
Theorem deleteExpense_commute (i j : N) (t : ExpenseTracker) :
  (deleteExpense i (deleteExpense j t).2).2
  = (deleteExpense j (deleteExpense i t).2).2.
Proof.
  destruct (decide (i < N.of_nat (length (expenses t)))%N) as [Hi|Hi],
    (decide (j < N.of_nat (length (expenses t)))%N) as [Hj|Hj].
  - rewrite (deleteExpense_valid j t Hj), (deleteExpense_valid i t Hi).
    cbn [snd]. rewrite !deleteExpense_valid
      by (cbn [expenses]; by rewrite length_alter).
    cbn [snd expenses categoryMap categoryTotals maxHeap]. f_equal.
    destruct (decide (N.to_nat i = N.to_nat j)) as [->|Hne]; [done|].
    by apply list_alter_alter_ne.
  - rewrite (deleteExpense_invalid j t Hj). cbn [snd].
    rewrite (deleteExpense_valid i t Hi). cbn [snd].
    rewrite (deleteExpense_invalid j); [done|].
    cbn [expenses]. by rewrite length_alter.
  - rewrite (deleteExpense_invalid i t Hi). cbn [snd].
    rewrite (deleteExpense_valid j t Hj). cbn [snd].
    rewrite (deleteExpense_invalid i); [done|].
    cbn [expenses]. by rewrite length_alter.
  - rewrite (deleteExpense_invalid j t Hj). cbn [snd].
    rewrite (deleteExpense_invalid i t Hi). cbn [snd].
    by rewrite (deleteExpense_invalid j t Hj).
Qed.

(** X13.  [deleteExpense] changes the log only: [filterByCategory],
    [viewCategoryTotals] and [viewTopExpenses] print after it exactly what
    they printed before it, the deleted record included. *)
Theorem deleteExpense_changes_log_only
    (index : N) (t : ExpenseTracker) (K : string) (n : N) :
  let t' := (deleteExpense index t).2 in
  filterByCategory K t' = filterByCategory K t
  ∧ viewCategoryTotals t' = viewCategoryTotals t
  ∧ (viewTopExpenses n t').1 = (viewTopExpenses n t).1.
Proof.
  simpl. destruct (deleteExpense_maps index t) as (Hm & Hs & Hh).
  unfold filterByCategory, viewCategoryTotals, viewTopExpenses.
  by rewrite Hm, Hs, Hh.
Qed.

(** ** The further statements with hypotheses, run on the worked session *)

Lemma log_keeps_every_insert_witness :
  sort_permutes date_sort
  ∧ length (expenses example_tracker) = length (inserted example_calls)
  ∧ maxHeap example_tracker ≡ₚ map as_inserted (expenses example_tracker).
Proof.
  split; [exact date_sort_permutes|].
  pose proof (log_keeps_every_insert date_sort example_calls
                date_sort_permutes) as H.
  cbv zeta in H. destruct H as (_ & H1 & H2). split; assumption.
Defined.

Lemma filterByDate_message_witness :
  sort_permutes date_sort ∧ sort_sorts date_sort
  ∧ ((filterByDate date_sort "2024-02-01" example_tracker).1
       = [Msg ("No expenses found for date: " +:+ "2024-02-01")]
     ↔ ∀ e, e ∈ expenses example_tracker → date e ≠ "2024-02-01").
Proof.
  split; [exact date_sort_permutes|]. split; [exact date_sort_sorts|].
  apply (filterByDate_message date_sort "2024-02-01" example_tracker
           date_sort_permutes date_sort_sorts).
Defined.

Lemma viewTopExpenses_prints_largest_witness :
  let mk c := {| amount := 5%float; category := c; date := "2024-01-05";
                 deleted := false |} in
  let cs := [AddExpense 5%float "a" "2024-01-05";
             AddExpense 5%float "b" "2024-01-05";
             AddExpense 5%float "c" "2024-01-05";
             AddExpense 5%float "d" "2024-01-05"] in
  let d := [mk "a"; mk "c"; mk "b"; mk "d"] in
  no_nan_amounts cs
  ∧ d ≡ₚ maxHeap (run date_sort cs new_tracker)
  ∧ StronglySorted amount_ge d
  ∧ top_loop 0 2 d = (map row_acd [mk "a"; mk "c"], [mk "b"; mk "d"])
  ∧ StronglySorted (λ a b, amount_le b a) [mk "a"; mk "c"].
Proof.
  intros mk cs d.
  assert (no_nan_amounts cs) as H1 by reflexivity.
  assert (d ≡ₚ maxHeap (run date_sort cs new_tracker)) as H2
    by (vm_compute; apply perm_skip, perm_swap).
  assert (StronglySorted amount_ge d) as H3
    by (repeat constructor; reflexivity).
  pose proof (viewTopExpenses_prints_largest date_sort cs 2 d H1 H2 H3) as H.
  cbv zeta in H. destruct H as (H4 & _ & _ & H5 & _).
  repeat split; assumption.
Defined.

Lemma viewExpenses_after_filterByDate_witness :
  sort_permutes date_sort ∧ sort_sorts date_sort
  ∧ ∃ l, viewExpenses (filterByDate date_sort "2024-01-05" example_tracker).2
         = Msg "Amount | Category | Date" :: map row_acd l
       ∧ l ≡ₚ filter (λ e, visible e = true) (expenses example_tracker)
       ∧ StronglySorted date_le l.
Proof.
  split; [exact date_sort_permutes|]. split; [exact date_sort_sorts|].
  apply (viewExpenses_after_filterByDate date_sort "2024-01-05" example_tracker
           date_sort_permutes date_sort_sorts).
Defined.
